(** * Room, participant and track metrics of the telemetry facade

    A shallow embedding of [pkg/telemetry/prometheus/rooms.go].

    The file keeps two representations of the same accounting state: nine
    package-level [atomic.Int32] mirrors and seven series registered with the
    Prometheus collector.  Every entry point is a short straight-line
    sequence of updates of these globals, so the globals are modelled as a
    store, and the entry points as computations over that store which either
    complete or panic.

    Modelling choices
    - A mirror holds a Go [int32]: its value is a [Z] and every update is
      reduced to the signed 32-bit range ([Int32.wrap]).
    - The collector library is an external collaborator.  A series is
      modelled by the number it exposes; the facade only ever adds or
      subtracts 1, so these numbers are integers (the library keeps them in
      64-bit words, whose limits no run of the facade comes near and which
      are not modelled).  A labelled vector is a finite map from label
      values to such numbers, and [WithLabelValues] creates a missing child
      at zero, for any label values.
    - A [time.Time] is the number of nanoseconds after the zero instant, a
      [time.Duration] a 64-bit number of nanoseconds, and [Time.Sub]
      saturates as the standard library documents.  The reading of the clock
      taken by [time.Since] is an argument of [RoomEnded].
    - The quotient [float64(d) / float64(time.Second)] is the rational
      [d / 10^9]; the rounding of [float64] is not modelled.
    - An [error] is [nil] or a value with a message; calling [Error] on
      [nil] panics. *)

From Stdlib Require Import ZArith QArith_base Lia.
From stdpp Require Import base decidable option list strings functions gmap fin_maps.

Local Open Scope Z_scope.

(** ** Signed 32-bit integers *)

Module Int32.

Definition min_signed : Z := -2147483648.
Definition max_signed : Z := 2147483647.
Definition modulus : Z := 4294967296.

Definition in_range (x : Z) : Prop := min_signed <= x <= max_signed.

(** The [int32] that Go's wrapping arithmetic gives for the integer [x]. *)
Definition wrap (x : Z) : Z := (x - min_signed) mod modulus + min_signed.

Definition add (x y : Z) : Z := wrap (x + y).
Definition sub (x y : Z) : Z := wrap (x - y).

End Int32.

(** ** The part of package [time] that [RoomEnded] uses *)

Module time.

(** Nanoseconds after January 1, year 1, 00:00:00 UTC. *)
Definition Time : Type := Z.
Definition Duration : Type := Z.

Definition Second : Duration := 1000000000.
Definition minDuration : Duration := -9223372036854775808.
Definition maxDuration : Duration := 9223372036854775807.

Definition IsZero (t : Time) : bool := t =? 0.

(** [t.Sub(u)]: the difference, or the nearest bound of [Duration] when the
    difference does not fit. *)
Definition Sub (t u : Time) : Duration :=
  if t - u <? minDuration then minDuration
  else if maxDuration <? t - u then maxDuration
  else t - u.

(** [time.Since(t)] is [time.Now().Sub(t)]. *)
Definition Since (now t : Time) : Duration := Sub now t.

(** [float64(d) / float64(time.Second)]. *)
Definition Seconds (d : Duration) : Q := Qmake d 1000000000.

End time.

(** ** The globals *)

Inductive Atomic : Set :=
  | roomCurrent
  | participantCurrent
  | trackPublishedCurrent
  | trackSubscribedCurrent
  | trackPublishAttempts
  | trackPublishSuccess
  | trackSubscribeAttempts
  | trackSubscribeSuccess
  | trackSubscribeUserError.

Inductive Gauge : Set := promRoomCurrent | promParticipantCurrent.
Inductive Histogram : Set := promRoomDuration.
Inductive GaugeVec : Set := promTrackPublishedCurrent | promTrackSubscribedCurrent.
Inductive CounterVec : Set := promTrackPublishCounter | promTrackSubscribeCounter.

#[export] Instance Atomic_eq_dec : EqDecision Atomic.
Proof. solve_decision. Defined.
#[export] Instance Gauge_eq_dec : EqDecision Gauge.
Proof. solve_decision. Defined.
#[export] Instance Histogram_eq_dec : EqDecision Histogram.
Proof. solve_decision. Defined.
#[export] Instance GaugeVec_eq_dec : EqDecision GaugeVec.
Proof. solve_decision. Defined.
#[export] Instance CounterVec_eq_dec : EqDecision CounterVec.
Proof. solve_decision. Defined.

(** The label values of one child of a vector, in the order they are passed
    to [WithLabelValues]. *)
Abbreviation Labels := (list string).

(** The children of a labelled vector with the number each one exposes. *)
Abbreviation Children := (gmap (list string) Z).

Record State : Type := mkState {
  atomics : Atomic -> Z;
  gauges : Gauge -> Z;
  histograms : Histogram -> list Q;
  gaugeVecs : GaugeVec -> Children;
  counterVecs : CounterVec -> Children
}.

(** Mirrors are zero at load time; [initRoomStats] registers the series
    without any child and without any observation. *)
Definition init : State :=
  {| atomics := fun _ => 0;
     gauges := fun _ => 0;
     histograms := fun _ => [];
     gaugeVecs := fun _ => ∅;
     counterVecs := fun _ => ∅ |}.

Definition set_atomics (f : Atomic -> Z) (s : State) : State :=
  {| atomics := f; gauges := gauges s; histograms := histograms s;
     gaugeVecs := gaugeVecs s; counterVecs := counterVecs s |}.

Definition set_gauges (f : Gauge -> Z) (s : State) : State :=
  {| atomics := atomics s; gauges := f; histograms := histograms s;
     gaugeVecs := gaugeVecs s; counterVecs := counterVecs s |}.

Definition set_histograms (f : Histogram -> list Q) (s : State) : State :=
  {| atomics := atomics s; gauges := gauges s; histograms := f;
     gaugeVecs := gaugeVecs s; counterVecs := counterVecs s |}.

Definition set_gaugeVecs (f : GaugeVec -> Children) (s : State) : State :=
  {| atomics := atomics s; gauges := gauges s; histograms := histograms s;
     gaugeVecs := f; counterVecs := counterVecs s |}.

Definition set_counterVecs (f : CounterVec -> Children) (s : State) : State :=
  {| atomics := atomics s; gauges := gauges s; histograms := histograms s;
     gaugeVecs := gaugeVecs s; counterVecs := f |}.

(** The upper bounds of the buckets of [promRoomDuration], in seconds, as
    [initRoomStats] lists them. *)
Definition Buckets : list Z :=
  [5; 10; 60; 5 * 60; 10 * 60; 30 * 60; 60 * 60; 2 * 60 * 60; 5 * 60 * 60;
   10 * 60 * 60].

(** The bucket an observation is counted in: the first upper bound it does
    not exceed, if any. *)
Definition bucket_of (x : Q) : option Z :=
  List.find (fun b => Qle_bool x (inject_Z b)) Buckets.

(** The number a child exposes; a child that was never created exposes
    nothing, which a reader of the series takes as zero. *)
Definition value (m : Children) (lvs : Labels) : Z := default 0 (m !! lvs).

(** The value of the [error] label of every child of [subscribe_counter]
    that does not count failures: the empty string. *)
Definition noError : string := EmptyString.

(** ** Computations over the globals *)

Inductive Res (A : Type) : Type :=
  | Done (a : A) (s : State)
  | Panic (s : State).
Arguments Done {A} a s.
Arguments Panic {A} s.

Definition Go (A : Type) : Type := State -> Res A.

#[export] Instance Go_ret : MRet Go := fun A a s => Done a s.
#[export] Instance Go_bind : MBind Go := fun A B f m s =>
  match m s with
  | Done a s' => f a s'
  | Panic s' => Panic s'
  end.

Definition panic {A : Type} : Go A := fun s => Panic s.

(** The globals as a call leaves them, whether it completed or panicked. *)
Definition state_of {A : Type} (r : Res A) : State :=
  match r with
  | Done _ s => s
  | Panic s => s
  end.

(** *** [go.uber.org/atomic]: [Int32.Inc] and [Int32.Dec] *)

Definition Inc (a : Atomic) : Go unit := fun s =>
  Done tt (set_atomics (<[a := Int32.add (atomics s a) 1]> (atomics s)) s).

Definition Dec (a : Atomic) : Go unit := fun s =>
  Done tt (set_atomics (<[a := Int32.sub (atomics s a) 1]> (atomics s)) s).

(** *** The collector library *)

(** A gauge is registered on its own or is the child of a vector. *)
Inductive GaugeRef : Type :=
  | GaugePlain (g : Gauge)
  | GaugeChild (v : GaugeVec) (lvs : Labels).
Coercion GaugePlain : Gauge >-> GaugeRef.

Inductive CounterRef : Type :=
  | CounterChild (v : CounterVec) (lvs : Labels).

(** [GaugeVec.WithLabelValues]: the child for these label values, created at
    zero when it does not exist yet. *)
Definition GaugeVec_WithLabelValues (v : GaugeVec) (lvs : Labels) : Go GaugeRef :=
  fun s =>
    Done (GaugeChild v lvs)
      (set_gaugeVecs
         (<[v := <[lvs := value (gaugeVecs s v) lvs]> (gaugeVecs s v)]> (gaugeVecs s)) s).

Definition CounterVec_WithLabelValues (v : CounterVec) (lvs : Labels) : Go CounterRef :=
  fun s =>
    Done (CounterChild v lvs)
      (set_counterVecs
         (<[v := <[lvs := value (counterVecs s v) lvs]> (counterVecs s v)]> (counterVecs s)) s).

Definition Gauge_Add (r : GaugeRef) (d : Z) : Go unit := fun s =>
  match r with
  | GaugePlain g => Done tt (set_gauges (<[g := gauges s g + d]> (gauges s)) s)
  | GaugeChild v lvs =>
      Done tt
        (set_gaugeVecs
           (<[v := <[lvs := value (gaugeVecs s v) lvs + d]> (gaugeVecs s v)]> (gaugeVecs s)) s)
  end.

Definition Gauge_Sub (r : GaugeRef) (d : Z) : Go unit := Gauge_Add r (- d).

Definition Counter_Inc (r : CounterRef) : Go unit := fun s =>
  match r with
  | CounterChild v lvs =>
      Done tt
        (set_counterVecs
           (<[v := <[lvs := value (counterVecs s v) lvs + 1]> (counterVecs s v)]> (counterVecs s)) s)
  end.

Definition Observe (h : Histogram) (x : Q) : Go unit := fun s =>
  Done tt (set_histograms (<[h := histograms s h ++ [x]]> (histograms s)) s).

(** *** Errors *)

(** [None] is the [nil] error, [Some msg] an error whose [Error] method
    returns [msg]. *)
Abbreviation error := (option string).

(** [err.Error()]: a method call on the [nil] interface value panics. *)
Definition Error (err : error) : Go string :=
  match err with
  | Some msg => mret msg
  | None => panic
  end.

(** ** The entry points *)

Definition RoomStarted : Go unit :=
  Gauge_Add promRoomCurrent 1 ;;
  Inc roomCurrent.

Definition RoomEnded (now startedAt : time.Time) : Go unit :=
  (if negb (time.IsZero startedAt)
   then Observe promRoomDuration (time.Seconds (time.Since now startedAt))
   else mret tt) ;;
  Gauge_Sub promRoomCurrent 1 ;;
  Dec roomCurrent.

Definition AddParticipant : Go unit :=
  Gauge_Add promParticipantCurrent 1 ;;
  Inc participantCurrent.

Definition SubParticipant : Go unit :=
  Gauge_Sub promParticipantCurrent 1 ;;
  Dec participantCurrent.

Definition AddPublishedTrack (kind : string) : Go unit :=
  g ← GaugeVec_WithLabelValues promTrackPublishedCurrent [kind];
  Gauge_Add g 1 ;;
  Inc trackPublishedCurrent.

Definition SubPublishedTrack (kind : string) : Go unit :=
  g ← GaugeVec_WithLabelValues promTrackPublishedCurrent [kind];
  Gauge_Sub g 1 ;;
  Dec trackPublishedCurrent.

Definition AddPublishAttempt (kind : string) : Go unit :=
  Inc trackPublishAttempts ;;
  c ← CounterVec_WithLabelValues promTrackPublishCounter [kind; "attempt"];
  Counter_Inc c.

Definition AddPublishSuccess (kind : string) : Go unit :=
  Inc trackPublishSuccess ;;
  c ← CounterVec_WithLabelValues promTrackPublishCounter [kind; "success"];
  Counter_Inc c.

Definition RecordTrackSubscribeSuccess (kind : string) : Go unit :=
  g ← GaugeVec_WithLabelValues promTrackSubscribedCurrent [kind];
  Gauge_Add g 1 ;;
  Inc trackSubscribedCurrent ;;
  c ← CounterVec_WithLabelValues promTrackSubscribeCounter ["success"; noError];
  Counter_Inc c ;;
  Inc trackSubscribeSuccess.

Definition RecordTrackUnsubscribed (kind : string) : Go unit :=
  g ← GaugeVec_WithLabelValues promTrackSubscribedCurrent [kind];
  Gauge_Sub g 1 ;;
  Dec trackSubscribedCurrent.

Definition RecordTrackSubscribeAttempt : Go unit :=
  Inc trackSubscribeAttempts ;;
  c ← CounterVec_WithLabelValues promTrackSubscribeCounter ["attempt"; noError];
  Counter_Inc c.

Definition RecordTrackSubscribeFailure (err : error) (isUserError : bool) : Go unit :=
  msg ← Error err;
  c ← CounterVec_WithLabelValues promTrackSubscribeCounter ["failure"; msg];
  Counter_Inc c ;;
  if isUserError then Inc trackSubscribeUserError else mret tt.

(** ** Sequences of calls *)

Inductive Call : Type :=
  | CallRoomStarted
  | CallRoomEnded (now startedAt : time.Time)
  | CallAddParticipant
  | CallSubParticipant
  | CallAddPublishedTrack (kind : string)
  | CallSubPublishedTrack (kind : string)
  | CallAddPublishAttempt (kind : string)
  | CallAddPublishSuccess (kind : string)
  | CallRecordTrackSubscribeAttempt
  | CallRecordTrackSubscribeSuccess (kind : string)
  | CallRecordTrackUnsubscribed (kind : string)
  | CallRecordTrackSubscribeFailure (err : error) (isUserError : bool).

Definition call (c : Call) : Go unit :=
  match c with
  | CallRoomStarted => RoomStarted
  | CallRoomEnded now startedAt => RoomEnded now startedAt
  | CallAddParticipant => AddParticipant
  | CallSubParticipant => SubParticipant
  | CallAddPublishedTrack kind => AddPublishedTrack kind
  | CallSubPublishedTrack kind => SubPublishedTrack kind
  | CallAddPublishAttempt kind => AddPublishAttempt kind
  | CallAddPublishSuccess kind => AddPublishSuccess kind
  | CallRecordTrackSubscribeAttempt => RecordTrackSubscribeAttempt
  | CallRecordTrackSubscribeSuccess kind => RecordTrackSubscribeSuccess kind
  | CallRecordTrackUnsubscribed kind => RecordTrackUnsubscribed kind
  | CallRecordTrackSubscribeFailure err isUserError =>
      RecordTrackSubscribeFailure err isUserError
  end.

(** The globals after one call. *)
Definition step (s : State) (c : Call) : State := state_of (call c s).

(** The globals after the calls of [cs], made one after the other. *)
Definition exec (cs : list Call) (s : State) : State := fold_left step cs s.


(** ** Counting calls in a sequence *)

Fixpoint count (p : Call -> bool) (cs : list Call) : Z :=
  match cs with
  | [] => 0
  | c :: cs' => (if p c then 1 else 0) + count p cs'
  end.

Definition is_RoomStarted (c : Call) : bool :=
  match c with CallRoomStarted => true | _ => false end.
Definition is_RoomEnded (c : Call) : bool :=
  match c with CallRoomEnded _ _ => true | _ => false end.
Definition is_AddParticipant (c : Call) : bool :=
  match c with CallAddParticipant => true | _ => false end.
Definition is_SubParticipant (c : Call) : bool :=
  match c with CallSubParticipant => true | _ => false end.

(** The change one call makes to a number that goes up on the calls [up]
    and down on the calls [down]. *)
Definition delta (up down : Call -> bool) (c : Call) : Z :=
  (if up c then 1 else 0) - (if down c then 1 else 0).

(** ** Reading the subscribe counter *)

(** A child of [subscribe_counter] carries the labels [state] and [error],
    in this order. *)
Definition has_state (state : string) (lvs : Labels) : bool :=
  match lvs with
  | st :: _ => bool_decide (st = state)
  | [] => false
  end.

(** The sum of the children of a vector whose [state] label is [state]. *)
Definition total_in_state (state : string) (m : Children) : Z :=
  map_fold (fun lvs v acc => if has_state state lvs then v + acc else acc) 0 m.

(** ** What it means for a call to touch the two representations *)




(** Every mirror holds an [int32]. *)
Definition mirrors_in_range (s : State) : Prop :=
  forall a, Int32.in_range (atomics s a).

(** ** More ways of counting calls and of reading the vectors *)



(** A [RoomEnded] that has a start time to measure from. *)
Definition is_TimedRoomEnded (c : Call) : bool :=
  match c with CallRoomEnded _ startedAt => negb (time.IsZero startedAt) | _ => false end.






(** The variable label names [initRoomStats] declares for each vector. *)
Definition GaugeVec_labelNames (v : GaugeVec) : list string :=
  match v with
  | promTrackPublishedCurrent => ["kind"]
  | promTrackSubscribedCurrent => ["kind"]
  end.

Definition CounterVec_labelNames (v : CounterVec) : list string :=
  match v with
  | promTrackPublishCounter => ["kind"; "state"]
  | promTrackSubscribeCounter => ["state"; "error"]
  end.

(** The children the entry points can create in each counter vector. *)
Definition counter_child (v : CounterVec) (lvs : Labels) : Prop :=
  match v with
  | promTrackPublishCounter =>
      exists kind state, lvs = [kind; state] /\ (state = "attempt" \/ state = "success")
  | promTrackSubscribeCounter =>
      lvs = ["attempt"; noError] \/ lvs = ["success"; noError] \/
      exists msg, lvs = ["failure"; msg]
  end.

(** Two states that expose the same numbers: every mirror, gauge and child
    agrees, and the histograms hold the same observations up to order. *)
Definition same_numbers (s s' : State) : Prop :=
  (forall a, atomics s a = atomics s' a) /\
  (forall g, gauges s g = gauges s' g) /\
  (forall h, histograms s h ≡ₚ histograms s' h) /\
  (forall v, gaugeVecs s v = gaugeVecs s' v) /\
  (forall v, counterVecs s v = counterVecs s' v).

(** ** The effect of one call, component by component *)

(** Adding [d] to the child [k] of a vector, created at zero if missing. *)
Definition bump (k : Labels) (d : Z) (m : Children) : Children :=
  <[k := value m k + d]> m.

(** By how much a call moves each mirror, before reduction to 32 bits. *)
Definition mirror_delta (c : Call) (a : Atomic) : Z :=
  match c, a with
  | CallRoomStarted, roomCurrent => 1
  | CallRoomEnded _ _, roomCurrent => -1
  | CallAddParticipant, participantCurrent => 1
  | CallSubParticipant, participantCurrent => -1
  | CallAddPublishedTrack _, trackPublishedCurrent => 1
  | CallSubPublishedTrack _, trackPublishedCurrent => -1
  | CallAddPublishAttempt _, trackPublishAttempts => 1
  | CallAddPublishSuccess _, trackPublishSuccess => 1
  | CallRecordTrackSubscribeAttempt, trackSubscribeAttempts => 1
  | CallRecordTrackSubscribeSuccess _, trackSubscribedCurrent => 1
  | CallRecordTrackSubscribeSuccess _, trackSubscribeSuccess => 1
  | CallRecordTrackUnsubscribed _, trackSubscribedCurrent => -1
  | CallRecordTrackSubscribeFailure (Some _) true, trackSubscribeUserError => 1
  | _, _ => 0
  end.

(** By how much a call moves each unlabelled gauge. *)
Definition gauge_delta (c : Call) (g : Gauge) : Z :=
  match c, g with
  | CallRoomStarted, promRoomCurrent => 1
  | CallRoomEnded _ _, promRoomCurrent => -1
  | CallAddParticipant, promParticipantCurrent => 1
  | CallSubParticipant, promParticipantCurrent => -1
  | _, _ => 0
  end.

(** The gauge child a call moves, and by how much. *)
Definition gaugeVec_delta (c : Call) : option (GaugeVec * Labels * Z) :=
  match c with
  | CallAddPublishedTrack kind => Some (promTrackPublishedCurrent, [kind], 1)
  | CallSubPublishedTrack kind => Some (promTrackPublishedCurrent, [kind], -1)
  | CallRecordTrackSubscribeSuccess kind => Some (promTrackSubscribedCurrent, [kind], 1)
  | CallRecordTrackUnsubscribed kind => Some (promTrackSubscribedCurrent, [kind], -1)
  | _ => None
  end.

(** The counter child a call increments. *)
Definition counterVec_child (c : Call) : option (CounterVec * Labels) :=
  match c with
  | CallAddPublishAttempt kind => Some (promTrackPublishCounter, [kind; "attempt"])
  | CallAddPublishSuccess kind => Some (promTrackPublishCounter, [kind; "success"])
  | CallRecordTrackSubscribeAttempt =>
      Some (promTrackSubscribeCounter, ["attempt"; noError])
  | CallRecordTrackSubscribeSuccess _ =>
      Some (promTrackSubscribeCounter, ["success"; noError])
  | CallRecordTrackSubscribeFailure (Some msg) _ =>
      Some (promTrackSubscribeCounter, ["failure"; msg])
  | _ => None
  end.

(** The observations a call adds to the room-duration histogram. *)
Definition observed (c : Call) : list Q :=
  match c with
  | CallRoomEnded now startedAt =>
      if time.IsZero startedAt then []
      else [time.Seconds (time.Since now startedAt)]
  | _ => []
  end.



(** * Properties *)

(** ** 32-bit wrap-around *)

Section int32.

Lemma wrap_in_range (x : Z) : Int32.in_range (Int32.wrap x).
Proof.
  unfold Int32.in_range, Int32.wrap, Int32.min_signed, Int32.max_signed, Int32.modulus.
  pose proof (Z.mod_pos_bound (x - -2147483648) 4294967296). lia.
Qed.

Lemma wrap_small (x : Z) : Int32.in_range x -> Int32.wrap x = x.
Proof.
  unfold Int32.in_range, Int32.wrap, Int32.min_signed, Int32.max_signed, Int32.modulus.
  intros Hx. rewrite Z.mod_small by lia. lia.
Qed.

Lemma wrap_wrap_add (x d : Z) : Int32.wrap (Int32.wrap x + d) = Int32.wrap (x + d).
Proof.
  unfold Int32.wrap, Int32.min_signed, Int32.modulus.
  replace ((x - -2147483648) mod 4294967296 + -2147483648 + d - -2147483648)
    with ((x - -2147483648) mod 4294967296 + d) by lia.
  rewrite Zplus_mod_idemp_l. f_equal. f_equal. lia.
Qed.


Lemma wrap_le (x : Z) : Int32.min_signed <= x -> Int32.wrap x <= x.
Proof.
  intros Hx. destruct (Z_le_gt_dec x Int32.max_signed) as [Hle|Hgt].
  - rewrite wrap_small; [lia | split; assumption].
  - pose proof (wrap_in_range x) as [_ Hmax]. lia.
Qed.

Lemma add_one_above (x : Z) :
  Int32.in_range x -> x < Int32.add x 1 -> Int32.add x 1 = x + 1.
Proof.
  intros [Hlo Hhi] Hlt. unfold Int32.add in *.
  destruct (Z_le_gt_dec (x + 1) Int32.max_signed) as [Hle|Hgt].
  - apply wrap_small. split; lia.
  - exfalso. assert (x = Int32.max_signed) as -> by lia.
    vm_compute in Hlt. discriminate.
Qed.

Lemma sub_one_below (x : Z) :
  Int32.in_range x -> Int32.min_signed < x -> Int32.sub x 1 = x - 1.
Proof.
  intros [Hlo Hhi] Hlt. unfold Int32.sub. apply wrap_small. split; lia.
Qed.

End int32.

#[global] Arguments Int32.wrap : simpl never.
#[global] Arguments Int32.add : simpl never.
#[global] Arguments Int32.sub : simpl never.

(** ** Reading the stores after an update *)

Section stores.

Lemma value_insert_eq (m : Children) (k : Labels) (v : Z) :
  value (<[k := v]> m) k = v.
Proof. unfold value. rewrite lookup_insert_eq. reflexivity. Qed.


(** Creating a child and then adding to it leaves one binding. *)
Lemma lookup_bumped (m : Children) (k lvs : Labels) (d : Z) :
  <[k := value (<[k := value m k]> m) k + d]> (<[k := value m k]> m) !! lvs
  = if decide (k = lvs) then Some (value m k + d) else m !! lvs.
Proof.
  rewrite value_insert_eq, insert_insert_eq, lookup_insert. reflexivity.
Qed.

Lemma value_bumped (m : Children) (k lvs : Labels) (d : Z) :
  value (<[k := value (<[k := value m k]> m) k + d]> (<[k := value m k]> m)) lvs
  = if decide (k = lvs) then value m k + d else value m lvs.
Proof.
  unfold value at 1. rewrite lookup_bumped. case_decide; reflexivity.
Qed.


End stores.

(** Unfolds an entry point into the updates it makes. *)
Ltac run_call :=
  cbv [step call state_of
       RoomStarted RoomEnded AddParticipant SubParticipant AddPublishedTrack
       SubPublishedTrack AddPublishAttempt AddPublishSuccess
       RecordTrackSubscribeSuccess RecordTrackUnsubscribed
       RecordTrackSubscribeAttempt RecordTrackSubscribeFailure
       Error panic mbind Go_bind mret Go_ret Inc Dec Gauge_Add Gauge_Sub
       Counter_Inc Observe GaugeVec_WithLabelValues CounterVec_WithLabelValues
       set_atomics set_gauges set_histograms set_gaugeVecs set_counterVecs];
  repeat match goal with
    | |- context [time.IsZero ?t] => destruct (time.IsZero t)
    | |- context [match ?e with Some _ => _ | None => _ end] =>
        is_var e; destruct e
    | |- context [if ?b then _ else _] => is_var b; destruct b
    end;
  cbv beta iota delta [negb];
  cbn [atomics gauges histograms gaugeVecs counterVecs].

(** Reads a store of globals at a known name. *)
Ltac read_store :=
  repeat first
    [ rewrite fn_lookup_insert
    | rewrite fn_lookup_insert_ne by discriminate
    | rewrite lookup_bumped
    | rewrite value_bumped
    | rewrite value_insert_eq ].

(** ** Publish attempts and successes *)


(** ** Sequences of calls *)

Section sequences.

Lemma exec_cons (c : Call) (cs : list Call) (s : State) :
  exec (c :: cs) s = exec cs (step s c).
Proof. reflexivity. Qed.

(** A property of the globals that every call preserves holds after every
    sequence of calls. *)
Lemma exec_invariant (P : State -> Prop) :
  (forall s c, P s -> P (step s c)) ->
  forall cs s, P s -> P (exec cs s).
Proof.
  intros Hstep cs. induction cs as [|c cs IH]; intros s Hs; [exact Hs|].
  rewrite exec_cons. apply IH, Hstep, Hs.
Qed.

(** An observation that one call maps through [g] is mapped through [g]
    once per repetition of that call. *)
Lemma exec_replicate {X : Type} (obs : State -> X) (g : X -> X) (c : Call) :
  (forall s, obs (step s c) = g (obs s)) ->
  forall n s, obs (exec (replicate n c) s) = Nat.iter n g (obs s).
Proof.
  intros Hstep n. induction n as [|n IH]; intros s; [reflexivity|].
  change (replicate (S n) c) with (c :: replicate n c).
  rewrite exec_cons, IH, Hstep. symmetry. apply Nat.iter_succ_r.
Qed.

Lemma iter_wrap_add (d : Z) (n : nat) (x : Z) :
  Int32.in_range x ->
  Nat.iter n (fun y => Int32.wrap (y + d)) x = Int32.wrap (x + Z.of_nat n * d).
Proof.
  intros Hx. induction n as [|n IH].
  - replace (x + Z.of_nat 0 * d) with x by lia.
    symmetry. apply wrap_small, Hx.
  - rewrite Nat.iter_succ, IH, wrap_wrap_add. f_equal. lia.
Qed.

Lemma iter_add (d : Z) (n : nat) (x : Z) :
  Nat.iter n (fun y => y + d) x = x + Z.of_nat n * d.
Proof.
  induction n as [|n IH]; [change (x = x + Z.of_nat 0 * d); lia|].
  rewrite Nat.iter_succ, IH. lia.
Qed.

Lemma step_mirrors_in_range (s : State) (c : Call) :
  mirrors_in_range s -> mirrors_in_range (step s c).
Proof.
  intros Hs a. specialize (Hs a) as Ha.
  destruct c; run_call;
    destruct a; read_store; try exact Ha; try apply wrap_in_range;
    apply Hs.
Qed.

Lemma init_mirrors_in_range : mirrors_in_range init.
Proof. intros a. cbn. split; discriminate. Qed.

Lemma exec_mirrors_in_range (cs : list Call) : mirrors_in_range (exec cs init).
Proof.
  apply (exec_invariant mirrors_in_range).
  - apply step_mirrors_in_range.
  - apply init_mirrors_in_range.
Qed.

End sequences.

Section repetition.

(** A mirror after [n] repetitions of a call that moves it by [d]. *)
Lemma mirror_replicate (c : Call) (a : Atomic) (d : Z) :
  (forall s, atomics (step s c) a = Int32.wrap (atomics s a + d)) ->
  forall n, atomics (exec (replicate n c) init) a = Int32.wrap (Z.of_nat n * d).
Proof.
  intros Hstep n.
  rewrite (exec_replicate (fun s => atomics s a) (fun y => Int32.wrap (y + d)) c Hstep).
  rewrite iter_wrap_add by apply init_mirrors_in_range.
  reflexivity.
Qed.

Lemma gauge_replicate (c : Call) (g : Gauge) (d : Z) :
  (forall s, gauges (step s c) g = gauges s g + d) ->
  forall n, gauges (exec (replicate n c) init) g = Z.of_nat n * d.
Proof.
  intros Hstep n.
  rewrite (exec_replicate (fun s => gauges s g) (fun y => y + d) c Hstep).
  rewrite iter_add. reflexivity.
Qed.



Lemma room_ended_mirror (now startedAt : time.Time) (s : State) :
  atomics (state_of (RoomEnded now startedAt s)) roomCurrent
  = Int32.sub (atomics s roomCurrent) 1.
Proof.
  run_call; read_store; reflexivity.
Qed.

End repetition.

(** ** Unsubscribing *)




(** ** Participants leaving *)

(** C9: a decrement past zero is neither detected nor clamped.  From the
    initial state one [SubParticipant] completes and leaves the
    [participantCurrent] mirror and the participant gauge at exactly -1.  In
    every state the call completes, the gauge goes down by 1 and the mirror
    is decremented in signed 32-bit arithmetic, so that a mirror at or below
    zero (and above the least [int32]) becomes negative. *)
Theorem SubParticipant_below_zero :
  (exists s', SubParticipant init = Done tt s' /\
     atomics s' participantCurrent = -1 /\
     gauges s' promParticipantCurrent = -1) /\
  (forall s, exists s', SubParticipant s = Done tt s' /\
     atomics s' participantCurrent = Int32.sub (atomics s participantCurrent) 1 /\
     gauges s' promParticipantCurrent = gauges s promParticipantCurrent - 1 /\
     (Int32.min_signed < atomics s participantCurrent <= 0 ->
      atomics s' participantCurrent = atomics s participantCurrent - 1 /\
      atomics s' participantCurrent < 0)).
Proof.
  split.
  - eexists. split; [reflexivity|]. split; reflexivity.
  - intros s. eexists. split; [reflexivity|]. run_call. read_store.
    split; [reflexivity|]. split; [lia|]. intros [Hlo Hhi].
    rewrite sub_one_below; [lia | | exact Hlo].
    split; [lia|]. unfold Int32.max_signed. lia.
Qed.

Lemma SubParticipant_below_zero_witness :
  let s := step (step init CallSubParticipant) CallSubParticipant in
  exists s', SubParticipant s = Done tt s' /\ atomics s' participantCurrent = -3.
Proof.
  intros s. destruct SubParticipant_below_zero as [_ Hgen].
  destruct (Hgen s) as (s' & Hrun & _ & _ & Hneg).
  exists s'. split; [exact Hrun|].
  destruct Hneg as [Heq _].
  - vm_compute. split; [reflexivity | discriminate].
  - rewrite Heq. reflexivity.
Defined.

(** ** The end of a room *)

(** C3, as the code has it.  [RoomEnded] always completes.  With the zero
    timestamp it records no observation.  With any other timestamp it
    records exactly one observation, the duration [time.Since] returns, in
    seconds: that is [now - startedAt] when the difference fits a 64-bit
    [Duration] and the saturated [Duration] otherwise.  In both cases the
    room gauge goes down by exactly 1 and the [roomCurrent] mirror is
    decremented in signed 32-bit arithmetic, which is by exactly 1 whenever
    it is above the least [int32]. *)
Theorem RoomEnded_effect (now startedAt : time.Time) (s : State) :
  exists s', RoomEnded now startedAt s = Done tt s' /\
    (startedAt = 0 ->
     histograms s' promRoomDuration = histograms s promRoomDuration) /\
    (startedAt <> 0 ->
     histograms s' promRoomDuration
     = histograms s promRoomDuration ++ [time.Seconds (time.Since now startedAt)]) /\
    (startedAt <> 0 ->
     time.minDuration <= now - startedAt <= time.maxDuration ->
     histograms s' promRoomDuration
     = histograms s promRoomDuration ++ [time.Seconds (now - startedAt)]) /\
    gauges s' promRoomCurrent = gauges s promRoomCurrent - 1 /\
    atomics s' roomCurrent = Int32.sub (atomics s roomCurrent) 1 /\
    (Int32.min_signed < atomics s roomCurrent <= Int32.max_signed ->
     atomics s' roomCurrent = atomics s roomCurrent - 1).
Proof.
  assert (Hsince : time.minDuration <= now - startedAt <= time.maxDuration ->
                   time.Since now startedAt = now - startedAt).
  { intros [Hlo Hhi]. unfold time.Since, time.Sub.
    destruct (Z.ltb_spec (now - startedAt) time.minDuration); [lia|].
    destruct (Z.ltb_spec time.maxDuration (now - startedAt)); [lia|].
    reflexivity. }
  unfold RoomEnded, time.IsZero.
  destruct (Z.eqb_spec startedAt 0) as [Heq|Hne];
    (eexists; split; [reflexivity|]); run_call; read_store.
  - split; [reflexivity|]. split; [contradiction|]. split; [contradiction|].
    split; [lia|]. split; [reflexivity|].
    intros [Hlo Hhi]. apply sub_one_below; [split; lia | exact Hlo].
  - split; [contradiction|]. split; [reflexivity|].
    split; [intros _ Hfit; rewrite (Hsince Hfit); reflexivity|].
    split; [lia|]. split; [reflexivity|].
    intros [Hlo Hhi]. apply sub_one_below; [split; lia | exact Hlo].
Qed.

Lemma RoomEnded_effect_witness :
  let now := 63900000065000000000 in
  let startedAt := 63900000000000000000 in
  let s := step init CallRoomStarted in
  exists s', RoomEnded now startedAt s = Done tt s' /\
    histograms s' promRoomDuration = [Qmake 65000000000 1000000000] /\
    atomics s' roomCurrent = 0 /\
    (exists s0, RoomEnded now 0 s = Done tt s0 /\ histograms s0 promRoomDuration = []).
Proof.
  intros now startedAt s.
  destruct (RoomEnded_effect now startedAt s)
    as (s' & Hrun & _ & Hsince & Hobs & _ & _ & Hmirror).
  assert (Hlast : histograms s' promRoomDuration
                  = histograms s promRoomDuration
                    ++ [time.Seconds (time.Since now startedAt)]).
  { apply Hsince. discriminate. }
  exists s'. split; [exact Hrun|]. split; [|split].
  - rewrite Hobs; [reflexivity | discriminate |].
    vm_compute. split; discriminate.
  - rewrite Hmirror; [reflexivity|]. vm_compute. split; [reflexivity | discriminate].
  - destruct (RoomEnded_effect now 0 s) as (s0 & Hrun0 & Hzero & _).
    exists s0. split; [exact Hrun0|]. rewrite Hzero; reflexivity.
Defined.

(** C3 as stated fails in two places.  A start one nanosecond after the zero
    instant is more than 2^63 nanoseconds before any present clock reading,
    so the observation is the largest [Duration] and not [now - startedAt];
    and at the least [int32] the mirror wraps instead of going down by 1. *)
Lemma RoomEnded_saturates_and_wraps :
  (let now := 63900000000000000000 in
   let s' := state_of (RoomEnded now 1 init) in
   histograms s' promRoomDuration = [time.Seconds time.maxDuration] /\
   ~ Qeq (time.Seconds time.maxDuration) (time.Seconds (now - 1))) /\
  (let s := exec (replicate (Z.to_nat 2147483648) (CallRoomEnded 0 0)) init in
   let s' := state_of (RoomEnded 0 0 s) in
   atomics s roomCurrent = -2147483648 /\
   atomics s' roomCurrent = 2147483647 /\
   atomics s' roomCurrent <> atomics s roomCurrent - 1).
Proof.
  split.
  - split; [reflexivity|]. vm_compute. discriminate.
  - intros s s'.
    assert (Hs : atomics s roomCurrent = -2147483648).
    { unfold s. rewrite (mirror_replicate _ roomCurrent (-1)).
      - rewrite Z2Nat.id by discriminate. reflexivity.
      - intros s0. apply room_ended_mirror. }
    assert (Hs' : atomics s' roomCurrent = 2147483647).
    { unfold s'. rewrite room_ended_mirror, Hs. reflexivity. }
    split; [exact Hs|]. split; [exact Hs'|].
    rewrite Hs, Hs'. discriminate.
Qed.

(** ** A series and its mirror along a sequence of calls *)

Section tracking.

Lemma count_bounds (p : Call -> bool) (cs : list Call) :
  0 <= count p cs <= Z.of_nat (length cs).
Proof.
  induction cs as [|c cs IH]; cbn [count length]; [lia|].
  destruct (p c); lia.
Qed.


(** An exported number [obs] and a mirror [a] that every call moves by the
    same amount: after any sequence the exported number has moved by the
    number of [up] calls minus the number of [down] calls, and the mirror
    holds that number reduced to 32 bits. *)
Lemma tracked (obs : State -> Z) (a : Atomic) (up down : Call -> bool) :
  (forall s c, obs (step s c) = obs s + delta up down c) ->
  (forall s c, Int32.in_range (atomics s a) ->
     atomics (step s c) a = Int32.wrap (atomics s a + delta up down c)) ->
  forall cs s, Int32.in_range (atomics s a) ->
    obs (exec cs s) = obs s + (count up cs - count down cs) /\
    atomics (exec cs s) a
    = Int32.wrap (atomics s a + (count up cs - count down cs)).
Proof.
  intros Hobs Hmirror cs. induction cs as [|c cs IH]; intros s Hs.
  - cbn [count exec fold_left]. split; [lia|].
    replace (atomics s a + (0 - 0)) with (atomics s a) by lia.
    symmetry. apply wrap_small, Hs.
  - rewrite exec_cons. cbn [count].
    assert (Hs' : Int32.in_range (atomics (step s c) a)).
    { rewrite Hmirror by exact Hs. apply wrap_in_range. }
    destruct (IH (step s c) Hs') as [IHobs IHmirror].
    rewrite IHobs, IHmirror, Hobs, (Hmirror s c Hs), wrap_wrap_add.
    unfold delta. split; [lia | f_equal; lia].
Qed.

Lemma room_step (s : State) (c : Call) :
  gauges (step s c) promRoomCurrent
  = gauges s promRoomCurrent + delta is_RoomStarted is_RoomEnded c /\
  (Int32.in_range (atomics s roomCurrent) ->
   atomics (step s c) roomCurrent
   = Int32.wrap (atomics s roomCurrent + delta is_RoomStarted is_RoomEnded c)).
Proof.
  unfold delta.
  destruct c; run_call;
    read_store; cbn [is_RoomStarted is_RoomEnded];
    (split; [lia|]); intros Hs;
    try (unfold Int32.add, Int32.sub; f_equal; lia);
    symmetry; rewrite Z.sub_diag, Z.add_0_r; apply wrap_small, Hs.
Qed.

Lemma participant_step (s : State) (c : Call) :
  gauges (step s c) promParticipantCurrent
  = gauges s promParticipantCurrent + delta is_AddParticipant is_SubParticipant c /\
  (Int32.in_range (atomics s participantCurrent) ->
   atomics (step s c) participantCurrent
   = Int32.wrap (atomics s participantCurrent
                 + delta is_AddParticipant is_SubParticipant c)).
Proof.
  unfold delta.
  destruct c; run_call;
    read_store; cbn [is_AddParticipant is_SubParticipant];
    (split; [lia|]); intros Hs;
    try (unfold Int32.add, Int32.sub; f_equal; lia);
    symmetry; rewrite Z.sub_diag, Z.add_0_r; apply wrap_small, Hs.
Qed.


End tracking.

(** ** Rooms and participants: the gauge and its mirror *)

(** C4, as the code has it: after every finite sequence of calls from the
    initial state the room gauge equals the number of [RoomStarted] calls
    minus the number of [RoomEnded] calls, and the [roomCurrent] mirror holds
    that number reduced to signed 32 bits; the two are equal whenever the
    number fits an [int32], in particular after fewer than 2^31 calls.  The
    same holds of the participant gauge and [participantCurrent] under
    [AddParticipant] and [SubParticipant]. *)
Theorem gauge_and_mirror_after (cs : list Call) :
  let s := exec cs init in
  let rooms := count is_RoomStarted cs - count is_RoomEnded cs in
  let participants := count is_AddParticipant cs - count is_SubParticipant cs in
  (gauges s promRoomCurrent = rooms /\
   atomics s roomCurrent = Int32.wrap rooms /\
   gauges s promParticipantCurrent = participants /\
   atomics s participantCurrent = Int32.wrap participants) /\
  (Int32.in_range rooms -> atomics s roomCurrent = gauges s promRoomCurrent) /\
  (Int32.in_range participants ->
   atomics s participantCurrent = gauges s promParticipantCurrent) /\
  (Z.of_nat (length cs) <= Int32.max_signed ->
   atomics s roomCurrent = gauges s promRoomCurrent /\
   atomics s participantCurrent = gauges s promParticipantCurrent).
Proof.
  intros s rooms participants.
  destruct (tracked (fun s => gauges s promRoomCurrent) roomCurrent
              is_RoomStarted is_RoomEnded
              (fun s c => proj1 (room_step s c))
              (fun s c => proj2 (room_step s c))
              cs init (init_mirrors_in_range _)) as [Hrg Hrm].
  destruct (tracked (fun s => gauges s promParticipantCurrent) participantCurrent
              is_AddParticipant is_SubParticipant
              (fun s c => proj1 (participant_step s c))
              (fun s c => proj2 (participant_step s c))
              cs init (init_mirrors_in_range _)) as [Hpg Hpm].
  change (gauges init promRoomCurrent) with 0 in Hrg.
  change (atomics init roomCurrent) with 0 in Hrm.
  change (gauges init promParticipantCurrent) with 0 in Hpg.
  change (atomics init participantCurrent) with 0 in Hpm.
  rewrite Z.add_0_l in Hrg, Hrm, Hpg, Hpm.
  fold s rooms in Hrg, Hrm. fold s participants in Hpg, Hpm.
  assert (Hr : Int32.in_range rooms -> atomics s roomCurrent = gauges s promRoomCurrent).
  { intros Hfit. rewrite Hrm, Hrg. apply wrap_small, Hfit. }
  assert (Hp : Int32.in_range participants ->
               atomics s participantCurrent = gauges s promParticipantCurrent).
  { intros Hfit. rewrite Hpm, Hpg. apply wrap_small, Hfit. }
  split; [repeat split; assumption|]. split; [exact Hr|]. split; [exact Hp|].
  intros Hlen.
  pose proof (count_bounds is_RoomStarted cs).
  pose proof (count_bounds is_RoomEnded cs).
  pose proof (count_bounds is_AddParticipant cs).
  pose proof (count_bounds is_SubParticipant cs).
  unfold Int32.max_signed in Hlen.
  split; [apply Hr | apply Hp];
    unfold Int32.in_range, Int32.min_signed, Int32.max_signed;
    subst rooms participants; lia.
Qed.

Lemma gauge_and_mirror_after_witness :
  let cs := [CallRoomStarted; CallAddParticipant; CallRoomStarted;
             CallRoomEnded 70000000000 5000000000; CallSubParticipant;
             CallSubParticipant] in
  atomics (exec cs init) roomCurrent = gauges (exec cs init) promRoomCurrent /\
  atomics (exec cs init) participantCurrent
  = gauges (exec cs init) promParticipantCurrent.
Proof.
  intros cs.
  destruct (gauge_and_mirror_after cs) as (_ & Hr & Hp & Hlen).
  assert (Hshort : atomics (exec cs init) roomCurrent
                   = gauges (exec cs init) promRoomCurrent).
  { apply Hlen. vm_compute. discriminate. }
  split.
  - apply Hr. vm_compute. split; discriminate.
  - apply Hp. vm_compute. split; discriminate.
Defined.

(** C4 as stated fails on long sequences: after 2^31 calls of [RoomStarted]
    the room gauge is 2^31 while the [roomCurrent] mirror has wrapped to
    -2^31. *)
Lemma room_mirror_wraps :
  let s := exec (replicate (Z.to_nat 2147483648) CallRoomStarted) init in
  gauges s promRoomCurrent = 2147483648 /\
  atomics s roomCurrent = -2147483648 /\
  gauges s promRoomCurrent <> atomics s roomCurrent.
Proof.
  intros s.
  assert (Hg : gauges s promRoomCurrent = 2147483648).
  { unfold s. rewrite (gauge_replicate _ promRoomCurrent 1).
    - rewrite Z2Nat.id by discriminate. reflexivity.
    - intros s0. run_call. read_store. reflexivity. }
  assert (Hm : atomics s roomCurrent = -2147483648).
  { unfold s. rewrite (mirror_replicate _ roomCurrent 1).
    - rewrite Z2Nat.id by discriminate. reflexivity.
    - intros s0. run_call. read_store. reflexivity. }
  split; [exact Hg|]. split; [exact Hm|]. rewrite Hg, Hm. discriminate.
Qed.

(** ** Subscription successes: the counter and its mirror *)




(** ** Counters never go down *)

Section counters.

Lemma total_in_state_insert (state : string) (m : Children) (k : Labels) (v : Z) :
  total_in_state state (<[k := v]> m)
  = total_in_state state m + (if has_state state k then v - value m k else 0).
Proof.
  assert (Hcomm : forall (m' : Children) (j1 j2 : Labels) (z1 z2 y : Z),
             j1 <> j2 -> m' !! j1 = Some z1 -> m' !! j2 = Some z2 ->
             (if has_state state j1 then z1 + (if has_state state j2 then z2 + y else y)
              else if has_state state j2 then z2 + y else y)
             = (if has_state state j2 then z2 + (if has_state state j1 then z1 + y else y)
                else if has_state state j1 then z1 + y else y)).
  { intros m' j1 j2 z1 z2 y _ _ _.
    destruct (has_state state j1), (has_state state j2); lia. }
  unfold total_in_state, value. destruct (m !! k) as [x|] eqn:Hk.
  - rewrite <- (insert_delete_eq m k v).
    rewrite map_fold_insert_L; [|apply Hcomm|apply lookup_delete_eq].
    rewrite (map_fold_delete_L _ 0 k x m); [|apply Hcomm|exact Hk].
    unfold default, from_option, id. destruct (has_state state k); lia.
  - rewrite map_fold_insert_L; [|apply Hcomm|exact Hk].
    unfold default, from_option, id. destruct (has_state state k); lia.
Qed.

(** The total in a state after a child is created and incremented. *)
Lemma total_in_state_bumped (state : string) (m : Children) (k : Labels) :
  total_in_state state (<[k := value m k + 1]> (<[k := value m k]> m))
  = total_in_state state m + (if has_state state k then 1 else 0).
Proof.
  rewrite insert_insert_eq, total_in_state_insert.
  destruct (has_state state k); lia.
Qed.

End counters.


(** ** Subscription failures caused by the user *)

Section user_errors.

Lemma user_error_step (s : State) (c : Call) :
  Int32.in_range (atomics s trackSubscribeUserError) ->
  atomics s trackSubscribeUserError
  <= total_in_state "failure" (counterVecs s promTrackSubscribeCounter) ->
  atomics (step s c) trackSubscribeUserError
  <= total_in_state "failure" (counterVecs (step s c) promTrackSubscribeCounter).
Proof.
  intros [Hlo Hhi] Hle.
  destruct c; run_call; read_store;
    rewrite ?total_in_state_bumped; cbn [has_state];
    rewrite ?bool_decide_eq_false_2 by discriminate;
    rewrite ?bool_decide_eq_true_2 by reflexivity;
    try lia.
  pose proof (wrap_le (atomics s trackSubscribeUserError + 1)) as Hw.
  unfold Int32.add. lia.
Qed.

Lemma user_error_bound (cs : list Call) :
  atomics (exec cs init) trackSubscribeUserError
  <= total_in_state "failure" (counterVecs (exec cs init) promTrackSubscribeCounter).
Proof.
  apply (exec_invariant (fun s =>
           mirrors_in_range s /\
           atomics s trackSubscribeUserError
           <= total_in_state "failure" (counterVecs s promTrackSubscribeCounter))).
  - intros s c [Hr Hle]. split; [apply step_mirrors_in_range, Hr|].
    apply user_error_step; [apply Hr | exact Hle].
  - split; [apply init_mirrors_in_range | reflexivity].
Qed.

Lemma user_error_rises (s : State) (c : Call) :
  Int32.in_range (atomics s trackSubscribeUserError) ->
  atomics s trackSubscribeUserError < atomics (step s c) trackSubscribeUserError ->
  (exists msg, c = CallRecordTrackSubscribeFailure (Some msg) true) /\
  atomics (step s c) trackSubscribeUserError = atomics s trackSubscribeUserError + 1.
Proof.
  intros Hr.
  destruct c; run_call; read_store; intros Hlt; try lia.
  split; [eexists; reflexivity|]. apply add_one_above; assumption.
Qed.

End user_errors.

(** C6: after every finite sequence of calls from the initial state the
    [trackSubscribeUserError] mirror is at most the sum, over all values of
    the error label, of the children [state="failure"] of
    [subscribe_counter]; and a call that raises the mirror is a
    [RecordTrackSubscribeFailure] whose [isUserError] flag is true, and
    raises it by exactly 1. *)
Theorem user_errors_bounded_by_failures (cs : list Call) (c : Call) :
  let s := exec cs init in
  atomics s trackSubscribeUserError
  <= total_in_state "failure" (counterVecs s promTrackSubscribeCounter) /\
  (atomics s trackSubscribeUserError < atomics (step s c) trackSubscribeUserError ->
   (exists msg, c = CallRecordTrackSubscribeFailure (Some msg) true) /\
   atomics (step s c) trackSubscribeUserError = atomics s trackSubscribeUserError + 1).
Proof.
  intros s. split.
  - apply user_error_bound.
  - apply user_error_rises, exec_mirrors_in_range.
Qed.

Lemma user_errors_bounded_by_failures_witness :
  let cs := [CallRecordTrackSubscribeAttempt;
             CallRecordTrackSubscribeFailure (Some "timeout") false] in
  let c := CallRecordTrackSubscribeFailure (Some "denied") true in
  atomics (step (exec cs init) c) trackSubscribeUserError = 1 /\
  total_in_state "failure" (counterVecs (step (exec cs init) c) promTrackSubscribeCounter) = 2.
Proof.
  intros cs c.
  destruct (user_errors_bounded_by_failures cs c) as [_ Hrise].
  destruct Hrise as [_ Heq].
  - vm_compute. reflexivity.
  - split; [rewrite Heq; reflexivity | vm_compute; reflexivity].
Defined.

(** ** Completion of the entry points *)




(** ** Both representations on every event *)

Section both.






End both.




(** ** The end-to-end scenarios of the specification *)

Example scenario_S1_S2 :
  let now := 63900000065000000000 in
  let s1 := exec [CallRoomStarted; CallAddParticipant;
                  CallAddPublishedTrack "audio"] init in
  let s2 := exec [CallSubPublishedTrack "audio"; CallSubParticipant;
                  CallRoomEnded now (now - 65000000000)] s1 in
  (gauges s1 promRoomCurrent = 1 /\ atomics s1 roomCurrent = 1 /\
   gauges s1 promParticipantCurrent = 1 /\ atomics s1 participantCurrent = 1 /\
   value (gaugeVecs s1 promTrackPublishedCurrent) ["audio"] = 1 /\
   atomics s1 trackPublishedCurrent = 1) /\
  (gauges s2 promRoomCurrent = 0 /\ gauges s2 promParticipantCurrent = 0 /\
   value (gaugeVecs s2 promTrackPublishedCurrent) ["audio"] = 0 /\
   histograms s2 promRoomDuration = [Qmake 65000000000 1000000000] /\
   bucket_of (Qmake 65000000000 1000000000) = Some 300).
Proof. vm_compute. repeat split. Qed.

Example scenario_S3_S4 :
  let s3 := exec [CallRecordTrackSubscribeAttempt; CallRecordTrackSubscribeAttempt;
                  CallRecordTrackSubscribeAttempt;
                  CallRecordTrackSubscribeSuccess "video";
                  CallRecordTrackSubscribeSuccess "video";
                  CallRecordTrackSubscribeFailure (Some "denied") true] init in
  let s4 := exec [CallRecordTrackUnsubscribed "video";
                  CallRecordTrackUnsubscribed "video"] s3 in
  (value (counterVecs s3 promTrackSubscribeCounter) ["attempt"; noError] = 3 /\
   value (counterVecs s3 promTrackSubscribeCounter) ["success"; noError] = 2 /\
   value (counterVecs s3 promTrackSubscribeCounter) ["failure"; "denied"] = 1 /\
   atomics s3 trackSubscribeAttempts = 3 /\ atomics s3 trackSubscribeSuccess = 2 /\
   atomics s3 trackSubscribeUserError = 1 /\
   value (gaugeVecs s3 promTrackSubscribedCurrent) ["video"] = 2) /\
  (value (gaugeVecs s4 promTrackSubscribedCurrent) ["video"] = 0 /\
   value (counterVecs s4 promTrackSubscribeCounter) ["attempt"; noError] = 3 /\
   value (counterVecs s4 promTrackSubscribeCounter) ["success"; noError] = 2 /\
   value (counterVecs s4 promTrackSubscribeCounter) ["failure"; "denied"] = 1 /\
   atomics s4 trackSubscribedCurrent = 0 /\ atomics s4 trackSubscribeSuccess = 2).
Proof. vm_compute. repeat split. Qed.

(** * Further properties of the entry points *)

(** ** One call, component by component *)

Section effects.

Lemma lookup_bump (m : Children) (k lvs : Labels) (d : Z) :
  bump k d m !! lvs = if decide (k = lvs) then Some (value m k + d) else m !! lvs.
Proof. unfold bump. apply lookup_insert. Qed.

Lemma value_bump (m : Children) (k lvs : Labels) (d : Z) :
  value (bump k d m) lvs = if decide (k = lvs) then value m k + d else value m lvs.
Proof. unfold value at 1. rewrite lookup_bump. case_decide; reflexivity. Qed.

Lemma bump_created (m : Children) (k : Labels) (d : Z) :
  <[k := value (<[k := value m k]> m) k + d]> (<[k := value m k]> m) = bump k d m.
Proof. unfold bump. rewrite value_insert_eq, insert_insert_eq. reflexivity. Qed.

Lemma bump_bump (m : Children) (k1 k2 : Labels) (d1 d2 : Z) :
  bump k1 d1 (bump k2 d2 m) = bump k2 d2 (bump k1 d1 m).
Proof.
  apply map_eq. intros lvs. rewrite !lookup_bump, !value_bump.
  repeat case_decide; subst; try congruence; f_equal; lia.
Qed.

Lemma step_atomics (s : State) (c : Call) (a : Atomic) :
  atomics (step s c) a
  = if decide (mirror_delta c a = 0) then atomics s a
    else Int32.wrap (atomics s a + mirror_delta c a).
Proof.
  destruct c; run_call; destruct a; read_store; reflexivity.
Qed.

Lemma step_gauges (s : State) (c : Call) (g : Gauge) :
  gauges (step s c) g = gauges s g + gauge_delta c g.
Proof.
  destruct c; run_call; destruct g; read_store; cbn [gauge_delta]; lia.
Qed.

Lemma step_gaugeVecs (s : State) (c : Call) (v : GaugeVec) :
  gaugeVecs (step s c) v
  = match gaugeVec_delta c with
    | Some (v', k, d) =>
        if decide (v' = v) then bump k d (gaugeVecs s v) else gaugeVecs s v
    | None => gaugeVecs s v
    end.
Proof.
  destruct c; run_call; destruct v; cbn [gaugeVec_delta];
    rewrite ?fn_lookup_insert, ?fn_lookup_insert_ne by discriminate;
    rewrite ?bump_created; reflexivity.
Qed.

Lemma step_counterVecs (s : State) (c : Call) (v : CounterVec) :
  counterVecs (step s c) v
  = match counterVec_child c with
    | Some (v', k) =>
        if decide (v' = v) then bump k 1 (counterVecs s v) else counterVecs s v
    | None => counterVecs s v
    end.
Proof.
  destruct c; run_call; destruct v; cbn [counterVec_child];
    rewrite ?fn_lookup_insert, ?fn_lookup_insert_ne by discriminate;
    rewrite ?bump_created; reflexivity.
Qed.

Lemma step_histograms (s : State) (c : Call) (h : Histogram) :
  histograms (step s c) h = histograms s h ++ observed c.
Proof.
  destruct h.
  destruct c as [| now startedAt | | | | | | | | | |];
    try (run_call; symmetry; apply app_nil_r).
  unfold step, call, RoomEnded, observed.
  destruct (time.IsZero startedAt); run_call; read_store;
    [symmetry; apply app_nil_r | reflexivity].
Qed.

End effects.
(** ** An increment followed by its decrement *)

Section round_trips.

Lemma add_sub_one (x : Z) : Int32.in_range x -> Int32.wrap (Int32.wrap (x + 1) + -1) = x.
Proof.
  intros Hx. rewrite wrap_wrap_add. replace (x + 1 + -1) with x by lia.
  apply wrap_small, Hx.
Qed.

Lemma sub_add_one (x : Z) : Int32.in_range x -> Int32.wrap (Int32.wrap (x + -1) + 1) = x.
Proof.
  intros Hx. rewrite wrap_wrap_add. replace (x + -1 + 1) with x by lia.
  apply wrap_small, Hx.
Qed.

End round_trips.

(** Decides the comparisons of names and label values left in a goal. *)
Ltac decide_labels :=
  repeat first
    [ rewrite decide_True by reflexivity
    | rewrite decide_False by discriminate
    | rewrite decide_False by (intros [? ?]; discriminate)
    | rewrite decide_True by (split; reflexivity) ];
  repeat case_decide;
  repeat match goal with H : _ /\ _ |- _ => destruct H end;
  subst;
  try match goal with
    | H : ?x <> ?x |- _ => destruct (H eq_refl)
    | H : ~ (?x = ?x /\ ?y = ?y) |- _ => destruct (H (conj eq_refl eq_refl))
    end;
  try reflexivity; try discriminate; try congruence.

(** Rewrites the globals after a few calls into the globals before them. *)
Ltac after_calls :=
  unfold exec; cbn [fold_left];
  rewrite ?step_atomics, ?step_gauges, ?step_gaugeVecs, ?step_counterVecs,
    ?step_histograms;
  cbn [mirror_delta gauge_delta gaugeVec_delta counterVec_child observed].


(** X1: a room that starts and then ends leaves every mirror, gauge and
    vector as it was, also when the mirror is at the largest [int32]; the
    only trace is the duration observed when the end carries a start time. *)
Theorem room_round_trip (now startedAt : time.Time) (s : State) :
  Int32.in_range (atomics s roomCurrent) ->
  let s' := exec [CallRoomStarted; CallRoomEnded now startedAt] s in
  (forall a, atomics s' a = atomics s a) /\
  (forall g, gauges s' g = gauges s g) /\
  (forall v, gaugeVecs s' v = gaugeVecs s v) /\
  (forall v, counterVecs s' v = counterVecs s v) /\
  histograms s' promRoomDuration
  = histograms s promRoomDuration
    ++ (if time.IsZero startedAt then []
        else [time.Seconds (time.Since now startedAt)]).
Proof.
  intros Hr s'. unfold s'.
  split; [|split; [|split; [|split]]].
  - intros a. destruct a; after_calls; decide_labels. apply add_sub_one, Hr.
  - intros g. destruct g; after_calls; lia.
  - intros v. after_calls. reflexivity.
  - intros v. after_calls. reflexivity.
  - after_calls. rewrite app_nil_r. reflexivity.
Qed.

Lemma room_round_trip_witness :
  let s := exec (replicate 3 CallRoomStarted) init in
  let s' := exec [CallRoomStarted; CallRoomEnded 63900000065000000000 0] s in
  atomics s' roomCurrent = 3 /\ gauges s' promRoomCurrent = 3 /\
  histograms s' promRoomDuration = [].
Proof.
  intros s s'.
  destruct (room_round_trip 63900000065000000000 0 s) as (Ha & Hg & _ & _ & Hh).
  - vm_compute. split; discriminate.
  - unfold s'. rewrite Ha, Hg, Hh. vm_compute. repeat split.
Defined.

(** X2: a participant who joins and then leaves, or whose departure is
    recorded before the arrival, leaves every mirror, gauge, vector and the
    histogram as they were. *)
Theorem participant_round_trip (s : State) :
  Int32.in_range (atomics s participantCurrent) ->
  let s1 := exec [CallAddParticipant; CallSubParticipant] s in
  let s2 := exec [CallSubParticipant; CallAddParticipant] s in
  ((forall a, atomics s1 a = atomics s a) /\
   (forall g, gauges s1 g = gauges s g) /\
   (forall h, histograms s1 h = histograms s h) /\
   (forall v, gaugeVecs s1 v = gaugeVecs s v) /\
   (forall v, counterVecs s1 v = counterVecs s v)) /\
  ((forall a, atomics s2 a = atomics s a) /\
   (forall g, gauges s2 g = gauges s g) /\
   (forall h, histograms s2 h = histograms s h) /\
   (forall v, gaugeVecs s2 v = gaugeVecs s v) /\
   (forall v, counterVecs s2 v = counterVecs s v)).
Proof.
  intros Hr s1 s2. unfold s1, s2.
  split; (split; [|split; [|split; [|split]]]);
    try (intros x; after_calls; rewrite ?app_nil_r; reflexivity).
  - intros a. destruct a; after_calls; decide_labels. apply add_sub_one, Hr.
  - intros g. destruct g; after_calls; lia.
  - intros a. destruct a; after_calls; decide_labels. apply sub_add_one, Hr.
  - intros g. destruct g; after_calls; lia.
Qed.

Lemma participant_round_trip_witness :
  let s := exec [CallSubParticipant] init in
  atomics (exec [CallAddParticipant; CallSubParticipant] s) participantCurrent = -1 /\
  gauges (exec [CallSubParticipant; CallAddParticipant] s) promParticipantCurrent = -1.
Proof.
  intros s.
  destruct (participant_round_trip s) as [(Ha & _) (_ & Hg & _)].
  - vm_compute. split; discriminate.
  - rewrite Ha, Hg. vm_compute. split; reflexivity.
Defined.





(** ** Mirrors and series along a sequence of calls *)

Section tallies.





End tallies.



Section series_totals.








End series_totals.





Section per_kind.






End per_kind.


(** ** The children of the vectors *)

Section children.

Lemma step_gaugeVecs_lookup (s : State) (c : Call) (v : GaugeVec) (lvs : Labels) :
  gaugeVecs (step s c) v !! lvs
  = match gaugeVec_delta c with
    | Some (v', k, d) =>
        if decide (v' = v /\ k = lvs) then Some (value (gaugeVecs s v) lvs + d)
        else gaugeVecs s v !! lvs
    | None => gaugeVecs s v !! lvs
    end.
Proof.
  rewrite step_gaugeVecs. destruct (gaugeVec_delta c) as [[[v' k] d]|]; [|reflexivity].
  destruct (decide (v' = v)) as [->|Hv].
  - rewrite lookup_bump. repeat case_decide; subst; intuition congruence.
  - rewrite decide_False by (intros [? ?]; contradiction). reflexivity.
Qed.

Lemma step_counterVecs_lookup (s : State) (c : Call) (v : CounterVec) (lvs : Labels) :
  counterVecs (step s c) v !! lvs
  = match counterVec_child c with
    | Some (v', k) =>
        if decide (v' = v /\ k = lvs) then Some (value (counterVecs s v) lvs + 1)
        else counterVecs s v !! lvs
    | None => counterVecs s v !! lvs
    end.
Proof.
  rewrite step_counterVecs. destruct (counterVec_child c) as [[v' k]|]; [|reflexivity].
  destruct (decide (v' = v)) as [->|Hv].
  - rewrite lookup_bump. repeat case_decide; subst; intuition congruence.
  - rewrite decide_False by (intros [? ?]; contradiction). reflexivity.
Qed.

Lemma gauge_children_persist_step (s : State) (c : Call) (v : GaugeVec) (lvs : Labels) :
  is_Some (gaugeVecs s v !! lvs) -> is_Some (gaugeVecs (step s c) v !! lvs).
Proof.
  intros H. rewrite step_gaugeVecs_lookup.
  destruct (gaugeVec_delta c) as [[[v' k] d]|]; [|exact H].
  case_decide; [eexists; reflexivity | exact H].
Qed.

Lemma counter_children_persist_step (s : State) (c : Call) (v : CounterVec) (lvs : Labels) :
  is_Some (counterVecs s v !! lvs) -> is_Some (counterVecs (step s c) v !! lvs).
Proof.
  intros H. rewrite step_counterVecs_lookup.
  destruct (counterVec_child c) as [[v' k]|]; [|exact H].
  case_decide; [eexists; reflexivity | exact H].
Qed.

Lemma counter_child_shape (c : Call) (v : CounterVec) (k : Labels) :
  counterVec_child c = Some (v, k) -> counter_child v k.
Proof.
  destruct c as [| | | | | | kind | kind | | kind | | [msg|] ?];
    cbn [counterVec_child]; intros H; inversion H; subst; cbn [counter_child];
    eauto 6.
Qed.

Lemma gauge_child_shape (c : Call) (v : GaugeVec) (k : Labels) (d : Z) :
  gaugeVec_delta c = Some (v, k, d) -> exists kind, k = [kind].
Proof.
  destruct c; cbn [gaugeVec_delta]; intros H; inversion H; subst; eauto.
Qed.

End children.

(** X10: a child of a vector is never removed.  Once a child of a gauge
    vector or of a counter vector exists, it exists after every further
    sequence of calls: a kind that has been seen once stays exported, also
    when its gauge is back at zero. *)
Theorem children_persist (cs : list Call) (s : State) :
  (forall v lvs, is_Some (gaugeVecs s v !! lvs) ->
                 is_Some (gaugeVecs (exec cs s) v !! lvs)) /\
  (forall v lvs, is_Some (counterVecs s v !! lvs) ->
                 is_Some (counterVecs (exec cs s) v !! lvs)).
Proof.
  revert s. induction cs as [|c cs IH]; intros s; [split; intros v lvs H; exact H|].
  rewrite exec_cons. destruct (IH (step s c)) as [IHg IHc]. split; intros v lvs H.
  - apply IHg, gauge_children_persist_step, H.
  - apply IHc, counter_children_persist_step, H.
Qed.

Lemma children_persist_witness :
  let s := exec [CallAddPublishedTrack "audio"; CallAddPublishAttempt "audio"] init in
  let cs := [CallSubPublishedTrack "audio"; CallRoomStarted] in
  gaugeVecs (exec cs s) promTrackPublishedCurrent !! ["audio"] = Some 0 /\
  is_Some (counterVecs (exec cs s) promTrackPublishCounter !! ["audio"; "attempt"]).
Proof.
  intros s cs. destruct (children_persist cs s) as [Hg Hc]. split.
  - destruct (Hg promTrackPublishedCurrent ["audio"]) as [x Hx].
    + vm_compute. eexists. reflexivity.
    + vm_compute. reflexivity.
  - apply Hc. vm_compute. eexists. reflexivity.
Defined.

(** X11: no counter child sits at zero.  After every finite sequence of calls
    from the initial state every child of [publish_counter] and of
    [subscribe_counter] that exists exposes at least 1: a counter child is
    created only by the call that first increments it. *)
Theorem counter_children_positive (cs : list Call) (v : CounterVec) (lvs : Labels) (x : Z) :
  counterVecs (exec cs init) v !! lvs = Some x -> 1 <= x.
Proof.
  revert v lvs x.
  apply (exec_invariant (fun s =>
           forall v lvs x, counterVecs s v !! lvs = Some x -> 1 <= x)).
  - intros s c IH v lvs x. rewrite step_counterVecs_lookup.
    destruct (counterVec_child c) as [[v' k]|]; [|apply IH].
    case_decide as Hk; [|apply IH].
    intros Hx. injection Hx as <-.
    unfold value. destruct (counterVecs s v !! lvs) as [y|] eqn:Hy; cbn.
    + specialize (IH v lvs y Hy). lia.
    + lia.
  - intros v lvs x. cbn. rewrite lookup_empty. discriminate.
Qed.

Lemma counter_children_positive_witness :
  let cs := [CallRecordTrackSubscribeFailure (Some "denied") false] in
  counterVecs (exec cs init) promTrackSubscribeCounter !! ["failure"; "denied"] = Some 1 /\
  1 <= 1.
Proof.
  intros cs.
  assert (H : counterVecs (exec cs init) promTrackSubscribeCounter
              !! ["failure"; "denied"] = Some 1) by (vm_compute; reflexivity).
  split; [exact H|].
  exact (counter_children_positive cs _ _ _ H).
Defined.

(** X12: label values are supplied as declared.  After every finite sequence
    of calls from the initial state every child of a gauge vector has exactly
    one label value, the kind, and every child of a counter vector has two:
    a kind and the state "attempt" or "success" for [publish_counter]; for
    [subscribe_counter] the state "attempt" or "success" with the empty
    error, or the state "failure" with the message of the error.  In each
    case the number of label values is the number of label names
    [initRoomStats] declares for the vector. *)
Theorem children_are_well_labelled (cs : list Call) :
  let s := exec cs init in
  (forall v lvs, is_Some (gaugeVecs s v !! lvs) ->
     (exists kind, lvs = [kind]) /\
     length lvs = length (GaugeVec_labelNames v)) /\
  (forall v lvs, is_Some (counterVecs s v !! lvs) ->
     counter_child v lvs /\
     length lvs = length (CounterVec_labelNames v)).
Proof.
  intros s. unfold s.
  assert (Hshape :
    (forall v lvs, is_Some (gaugeVecs (exec cs init) v !! lvs) -> exists kind, lvs = [kind]) /\
    (forall v lvs, is_Some (counterVecs (exec cs init) v !! lvs) -> counter_child v lvs)).
  { apply (exec_invariant (fun s =>
      (forall v lvs, is_Some (gaugeVecs s v !! lvs) -> exists kind, lvs = [kind]) /\
      (forall v lvs, is_Some (counterVecs s v !! lvs) -> counter_child v lvs))).
    - intros s0 c [IHg IHc]. split; intros v lvs.
      + rewrite step_gaugeVecs_lookup.
        destruct (gaugeVec_delta c) as [[[v' k] d]|] eqn:Hd; [|apply IHg].
        case_decide as Hk; [|apply IHg].
        intros _. destruct Hk as [-> ->]. eapply gauge_child_shape, Hd.
      + rewrite step_counterVecs_lookup.
        destruct (counterVec_child c) as [[v' k]|] eqn:Hd; [|apply IHc].
        case_decide as Hk; [|apply IHc].
        intros _. destruct Hk as [-> ->]. eapply counter_child_shape, Hd.
    - split; intros v lvs [x Hx]; cbn in Hx; rewrite lookup_empty in Hx;
        discriminate. }
  destruct Hshape as [Hg Hc]. split; intros v lvs H.
  - destruct (Hg v lvs H) as [kind ->]. split; [eauto|]. destruct v; reflexivity.
  - specialize (Hc v lvs H). split; [exact Hc|].
    destruct v; cbn [counter_child] in Hc.
    + destruct Hc as (kind & state & -> & _). reflexivity.
    + destruct Hc as [-> | [-> | [msg ->]]]; reflexivity.
Qed.

Lemma children_are_well_labelled_witness :
  let cs := [CallRecordTrackSubscribeSuccess "video"; CallAddPublishSuccess "video"] in
  counter_child promTrackPublishCounter ["video"; "success"] /\
  length ["video"] = length (GaugeVec_labelNames promTrackSubscribedCurrent).
Proof.
  intros cs. destruct (children_are_well_labelled cs) as [Hg Hc]. split.
  - apply (Hc promTrackPublishCounter ["video"; "success"]).
    vm_compute. eexists. reflexivity.
  - apply (Hg promTrackSubscribedCurrent ["video"]).
    vm_compute. eexists. reflexivity.
Defined.

(** ** The room-duration histogram *)

Section histogram.

Lemma observed_length (c : Call) :
  Z.of_nat (length (observed c)) = if is_TimedRoomEnded c then 1 else 0.
Proof.
  destruct c as [| now startedAt | | | | | | | | | |]; try reflexivity.
  cbn [observed is_TimedRoomEnded]. destruct (time.IsZero startedAt); reflexivity.
Qed.

Lemma observed_origin (c : Call) (x : Q) :
  x ∈ observed c ->
  exists now startedAt, c = CallRoomEnded now startedAt /\ startedAt <> 0 /\
                        x = time.Seconds (time.Since now startedAt).
Proof.
  destruct c as [| now startedAt | | | | | | | | | |]; cbn [observed];
    intros Hx; try (inversion Hx; fail).
  revert Hx. unfold time.IsZero.
  destruct (Z.eqb_spec startedAt 0) as [Hz|Hnz]; intros Hx; [inversion Hx|].
  apply list_elem_of_singleton in Hx. eauto.
Qed.

End histogram.

(** X13: the histogram only grows, and only when a room with a start time
    ends.  After every sequence of calls the observations recorded before
    are still there, in their order, followed by one new observation for
    each [RoomEnded] call with a non-zero start time and by nothing else;
    each new observation is the duration [time.Since] returned for one of
    those calls, in seconds. *)
Theorem histogram_only_grows (cs : list Call) (s : State) :
  exists recorded,
    histograms (exec cs s) promRoomDuration
    = histograms s promRoomDuration ++ recorded /\
    Z.of_nat (length recorded) = count is_TimedRoomEnded cs /\
    forall x, x ∈ recorded ->
      exists now startedAt, CallRoomEnded now startedAt ∈ cs /\ startedAt <> 0 /\
                            x = time.Seconds (time.Since now startedAt).
Proof.
  revert s. induction cs as [|c cs IH]; intros s.
  - exists []. split; [symmetry; apply app_nil_r|]. split; [reflexivity|].
    intros x H. inversion H.
  - rewrite exec_cons. destruct (IH (step s c)) as (rest & Heq & Hlen & Hin).
    exists (observed c ++ rest). split; [|split].
    + rewrite Heq, step_histograms, app_assoc. reflexivity.
    + rewrite length_app, Nat2Z.inj_add, Hlen, observed_length.
      cbn [count]. reflexivity.
    + intros x Hx. apply elem_of_app in Hx as [Hx|Hx].
      * destruct (observed_origin c x Hx) as (now & startedAt & -> & Hnz & ->).
        exists now, startedAt. split; [left|split; [exact Hnz|reflexivity]].
      * destruct (Hin x Hx) as (now & startedAt & Hc & Hnz & ->).
        exists now, startedAt. split; [right; exact Hc|split; [exact Hnz|reflexivity]].
Qed.

Lemma histogram_only_grows_witness :
  let cs := [CallRoomStarted; CallRoomEnded 70000000000 5000000000;
             CallRoomEnded 70000000000 0] in
  exists now startedAt, CallRoomEnded now startedAt ∈ cs /\ startedAt <> 0 /\
    Qmake 65000000000 1000000000 = time.Seconds (time.Since now startedAt).
Proof.
  intros cs.
  destruct (histogram_only_grows cs init) as (recorded & Heq & _ & Hin).
  apply Hin. vm_compute in Heq. rewrite <- Heq. left.
Defined.

(** X14: a start time in the future is neither skipped nor clamped.  When
    [RoomEnded] is given a non-zero start time later than the clock reading,
    it completes and records exactly one observation, and that observation
    is negative. *)
Theorem RoomEnded_future_start (now startedAt : time.Time) (s : State) :
  startedAt <> 0 -> now < startedAt ->
  exists s' x, RoomEnded now startedAt s = Done tt s' /\
    histograms s' promRoomDuration = histograms s promRoomDuration ++ [x] /\
    Qlt x (inject_Z 0).
Proof.
  intros Hnz Hlt.
  assert (Hzero : time.IsZero startedAt = false).
  { unfold time.IsZero. apply Z.eqb_neq, Hnz. }
  exists (step s (CallRoomEnded now startedAt)),
         (time.Seconds (time.Since now startedAt)).
  split; [|split].
  - unfold step, call, RoomEnded. rewrite Hzero. reflexivity.
  - rewrite step_histograms. cbn [observed]. rewrite Hzero. reflexivity.
  - unfold Qlt, time.Seconds, inject_Z. cbn [Qnum Qden].
    unfold time.Since, time.Sub.
    destruct (Z.ltb_spec (now - startedAt) time.minDuration).
    + reflexivity.
    + destruct (Z.ltb_spec time.maxDuration (now - startedAt)) as [Hbig|_].
      * unfold time.maxDuration in Hbig. lia.
      * lia.
Qed.

Lemma RoomEnded_future_start_witness :
  exists s' x, RoomEnded 63900000000000000000 63900000005000000000 init = Done tt s' /\
    histograms s' promRoomDuration = [x] /\ Qlt x (inject_Z 0).
Proof.
  destruct (RoomEnded_future_start 63900000000000000000 63900000005000000000 init)
    as (s' & x & Hrun & Hh & Hx).
  - discriminate.
  - reflexivity.
  - exists s', x. split; [exact Hrun|]. split; [exact Hh | exact Hx].
Defined.

(** ** A kind that has no child yet *)



(** ** The order of the calls *)

Section order.

Lemma same_numbers_refl (s : State) : same_numbers s s.
Proof. repeat split; reflexivity. Qed.

Lemma same_numbers_trans (s1 s2 s3 : State) :
  same_numbers s1 s2 -> same_numbers s2 s3 -> same_numbers s1 s3.
Proof.
  intros (Ha & Hg & Hh & Hv & Hc) (Ha' & Hg' & Hh' & Hv' & Hc').
  repeat split; intros x.
  - rewrite Ha. apply Ha'.
  - rewrite Hg. apply Hg'.
  - rewrite Hh. apply Hh'.
  - rewrite Hv. apply Hv'.
  - rewrite Hc. apply Hc'.
Qed.

(** A call made in two states that expose the same numbers leaves two states
    that expose the same numbers. *)
Lemma step_same_numbers (s s' : State) (c : Call) :
  same_numbers s s' -> same_numbers (step s c) (step s' c).
Proof.
  intros (Ha & Hg & Hh & Hv & Hc). repeat split; intros x.
  - rewrite !step_atomics, Ha. reflexivity.
  - rewrite !step_gauges, Hg. reflexivity.
  - rewrite !step_histograms, Hh. reflexivity.
  - rewrite !step_gaugeVecs, Hv. reflexivity.
  - rewrite !step_counterVecs, Hc. reflexivity.
Qed.

Lemma exec_same_numbers (cs : list Call) (s s' : State) :
  same_numbers s s' -> same_numbers (exec cs s) (exec cs s').
Proof.
  revert s s'. induction cs as [|c cs IH]; intros s s' H; [exact H|].
  rewrite !exec_cons. apply IH, step_same_numbers, H.
Qed.

(** Two calls made in either order. *)
Lemma step_swap (s : State) (c1 c2 : Call) :
  same_numbers (step (step s c1) c2) (step (step s c2) c1).
Proof.
  repeat split; intros x.
  - rewrite !step_atomics.
    repeat case_decide;
      match goal with
      | |- Int32.wrap (Int32.wrap (?a + ?d1) + ?d2) = _ =>
          rewrite (wrap_wrap_add (a + d1) d2), (wrap_wrap_add (a + d2) d1);
          apply (f_equal Int32.wrap); lia
      | |- _ => exact eq_refl
      end.
  - rewrite !step_gauges. lia.
  - rewrite !step_histograms, <- !app_assoc.
    apply Permutation_app_head, Permutation_app_comm.
  - rewrite !step_gaugeVecs.
    destruct (gaugeVec_delta c1) as [[[v1 k1] d1]|],
             (gaugeVec_delta c2) as [[[v2 k2] d2]|];
      repeat case_decide; try reflexivity.
    apply bump_bump.
  - rewrite !step_counterVecs.
    destruct (counterVec_child c1) as [[v1 k1]|],
             (counterVec_child c2) as [[v2 k2]|];
      repeat case_decide; try reflexivity.
    apply bump_bump.
Qed.

Lemma exec_permutation (cs cs' : list Call) :
  cs ≡ₚ cs' ->
  forall s s', same_numbers s s' -> same_numbers (exec cs s) (exec cs' s').
Proof.
  induction 1 as [|c cs cs' _ IH|c1 c2 cs|cs1 cs2 cs3 _ IH1 _ IH2]; intros s s' Hs.
  - exact Hs.
  - rewrite !exec_cons. apply IH, step_same_numbers, Hs.
  - rewrite !exec_cons.
    apply (same_numbers_trans _ (exec cs (step (step s c1) c2))).
    + apply exec_same_numbers, step_swap.
    + apply exec_same_numbers, step_same_numbers, step_same_numbers, Hs.
  - apply (same_numbers_trans _ (exec cs2 s)).
    + apply IH1, same_numbers_refl.
    + apply IH2, Hs.
Qed.

End order.

(** X16: the order of the calls does not matter for the numbers exposed.
    Two sequences made of the same calls in different orders, run from the
    same state, leave every mirror equal, every gauge equal, every vector
    with the same children at the same values, and the histogram with the
    same observations up to their order; this holds with the wrap-around of
    the mirrors and with calls that panic. *)
Theorem order_does_not_matter (cs cs' : list Call) (s : State) :
  cs ≡ₚ cs' -> same_numbers (exec cs s) (exec cs' s).
Proof.
  intros Hperm. apply (exec_permutation cs cs' Hperm), same_numbers_refl.
Qed.

Lemma order_does_not_matter_witness :
  let cs := [CallRecordTrackSubscribeAttempt; CallRecordTrackSubscribeSuccess "video";
             CallRecordTrackUnsubscribed "video"] in
  let cs' := [CallRecordTrackUnsubscribed "video"; CallRecordTrackSubscribeSuccess "video";
              CallRecordTrackSubscribeAttempt] in
  same_numbers (exec cs init) (exec cs' init).
Proof.
  intros cs cs'. apply order_does_not_matter.
  unfold cs, cs'.
  apply (Permutation_rev [CallRecordTrackSubscribeAttempt;
                          CallRecordTrackSubscribeSuccess "video";
                          CallRecordTrackUnsubscribed "video"]).
Defined.

(** ** Calls that panic *)

